(** * EcoTrack server: challenges, memberships and the browse filter

    A shallow embedding of [src/index.js] (Express routes over the native
    MongoDB driver).  Documents of the [challenges] collection are finite
    maps from field names to values, as the store keeps them; rows of the
    [userChallenges] collection are records, since the join route is their
    only writer and always writes the same fields.  Handlers are functions
    from the request and the database to a response and the new database.

    Scope of the model.  Numbers are integers (fractional JSON numbers and
    magnitudes beyond 2^53 are not represented), strings are byte strings
    with ASCII case folding, and the handlers run one at a time. *)

From Stdlib Require Import ZArith Ascii String List Bool Lia.
From stdpp Require Import base gmap strings list fin_maps relations.

Set Warnings "-register-all".

Local Open Scope string_scope.
Local Open Scope Z_scope.

(** ** Values *)

(** A JavaScript / BSON value.  A field that is missing ([undefined]) is the
    [None] of a lookup. *)
Inductive value : Type :=
| VNull
| VBool (b : bool)
| VNum (n : Z)
| VStr (s : string)
| VDate (t : Z)
| VOid (hex : string)
| VArr (items : list value)
| VObj (fields : list (string * value)).

Abbreviation doc := (gmap string value).

(** [NaN] is what [parseInt] gives on a string without digits. *)
Inductive number : Type :=
| NaN
| Num (z : Z).

(** ToBoolean. *)
Definition truthy (v : option value) : bool :=
  match v with
  | None => false
  | Some VNull => false
  | Some (VBool b) => b
  | Some (VNum n) => negb (n =? 0)%Z
  | Some (VStr s) => negb (s =? "")%string
  | Some _ => true
  end.

(** Truthiness of a query-string parameter. *)
Definition present (o : option string) : bool :=
  match o with
  | Some s => negb (s =? "")%string
  | None => false
  end.

(** [a || b] on values. *)
Definition or_else (a : option value) (b : value) : value :=
  match a with
  | Some v => if truthy a then v else b
  | None => b
  end.

(** Equality of stored values, as a unique index and [$in] compare them. *)
Fixpoint value_eqb (a b : value) : bool :=
  match a, b with
  | VNull, VNull => true
  | VBool x, VBool y => Bool.eqb x y
  | VNum x, VNum y => (x =? y)%Z
  | VStr x, VStr y => (x =? y)%string
  | VDate x, VDate y => (x =? y)%Z
  | VOid x, VOid y => (x =? y)%string
  | VArr xs, VArr ys =>
      (fix go (xs ys : list value) : bool :=
         match xs, ys with
         | [], [] => true
         | x :: xs', y :: ys' => value_eqb x y && go xs' ys'
         | _, _ => false
         end) xs ys
  | VObj xs, VObj ys =>
      (fix go (xs ys : list (string * value)) : bool :=
         match xs, ys with
         | [], [] => true
         | (k, x) :: xs', (l, y) :: ys' =>
             (k =? l)%string && value_eqb x y && go xs' ys'
         | _, _ => false
         end) xs ys
  | _, _ => false
  end.

(** ** The runtime the server runs on

    The behaviour of [ObjectId], [Date], implicit conversions and the store's
    sort order belongs to the JavaScript runtime and the driver, not to this
    repository: it is taken as a parameter. *)
Class Runtime : Type := {
  (** [ObjectId.isValid(s)] *)
  ObjectId_isValid : string -> bool;
  (** [new ObjectId(s).toString()] for a valid [s] *)
  ObjectId_hex : string -> string;
  (** [new Date(v).getTime()], [None] when it is [NaN] *)
  Date_getTime : value -> option Z;
  (** [v.toString()] for a value that is neither a string nor an ObjectId *)
  Object_toString : value -> string;
  (** [a >= b] when one side is not a number *)
  coerced_ge : value -> value -> bool;
  (** the store's ascending order on a sort key that is not a pair of dates *)
  bson_le : option value -> option value -> bool;
  (** whether [new RegExp(s, "i")] accepts a pattern that uses more than
      literal characters and dots *)
  RegExp_accepts : string -> bool;
  (** whether such a pattern, case-insensitively, matches somewhere in a text *)
  RegExp_test : string -> string -> bool
}.

Section Helpers.
Context `{Runtime}.

(** [v.toString()] *)
Definition toString (v : value) : string :=
  match v with
  | VStr s => s
  | VOid h => h
  | _ => Object_toString v
  end.

(** [a >= b]; [undefined] converts to [NaN], which compares false. *)
Definition js_ge (a b : option value) : bool :=
  match a, b with
  | Some (VNum x), Some (VNum y) => (y <=? x)%Z
  | Some x, Some y => coerced_ge x y
  | _, _ => false
  end.

(** [parseDateSafe]: [null] is [None]. *)
Definition parseDateSafe (v : option value) : option Z :=
  if negb (truthy v) then None
  else match v with
       | Some x => Date_getTime x
       | None => None
       end.

End Helpers.

(** ** [parseInt(s, 10)] *)

Definition is_space (c : ascii) : bool :=
  match nat_of_ascii c with
  | 9%nat | 10%nat | 11%nat | 12%nat | 13%nat | 32%nat => true
  | _ => false
  end.

Fixpoint skip_spaces (s : string) : string :=
  match s with
  | String c r => if is_space c then skip_spaces r else s
  | EmptyString => s
  end.

Definition digit_of (c : ascii) : option Z :=
  let n := nat_of_ascii c in
  if ((48 <=? n)%nat && (n <=? 57)%nat)%bool then Some (Z.of_nat n - 48)%Z else None.

(** The longest prefix of decimal digits; [NaN] when it is empty. *)
Fixpoint digits (s : string) (acc : number) : number :=
  match s with
  | String c r =>
      match digit_of c with
      | Some d =>
          digits r (Num (match acc with NaN => d | Num a => 10 * a + d end))
      | None => acc
      end
  | EmptyString => acc
  end.

Definition negate (n : number) : number :=
  match n with
  | NaN => NaN
  | Num z => Num (- z)
  end.

Definition parseInt (s : string) : number :=
  match skip_spaces s with
  | String "-" r => negate (digits r NaN)
  | String "+" r => digits r NaN
  | r => digits r NaN
  end.

(** [Math.max(a, n)] and [Math.min(a, n)] with a constant first argument. *)
Definition Math_max (a : Z) (n : number) : number :=
  match n with
  | NaN => NaN
  | Num z => Num (Z.max a z)
  end.

Definition Math_min (a : Z) (n : number) : number :=
  match n with
  | NaN => NaN
  | Num z => Num (Z.min a z)
  end.

(** ** Strings: [split(",")], [trim] *)

Fixpoint split_comma (s : string) : list string :=
  match s with
  | EmptyString => [""]
  | String c r =>
      if Ascii.eqb c "," then "" :: split_comma r
      else match split_comma r with
           | h :: t => String c h :: t
           | [] => [String c ""]
           end
  end.

Fixpoint trim_end (s : string) : string :=
  match s with
  | EmptyString => ""
  | String c r =>
      match trim_end r with
      | EmptyString => if is_space c then "" else String c ""
      | r' => String c r'
      end
  end.

Definition trim (s : string) : string := trim_end (skip_spaces s).

Definition nonempty (s : string) : bool := negb (s =? "")%string.

(** ** Regular expressions: [new RegExp(s, "i")]

    Patterns made of literal characters and dots are interpreted here;
    a pattern that opens with a quantifier is a syntax error; every other
    pattern is left to the runtime. *)

Inductive atom : Type :=
| AChar (c : ascii)
| AAny.

Inductive regexp : Type :=
| Pattern (atoms : list atom)
| Opaque (source : string).

Definition metachars : list ascii := list_ascii_of_string "\^$.*+?()[]{}|".

Definition is_meta (c : ascii) : bool := existsb (Ascii.eqb c) metachars.

Definition is_quantifier (c : ascii) : bool :=
  existsb (Ascii.eqb c) (list_ascii_of_string "*+?").

Fixpoint atoms_of (cs : list ascii) : option (list atom) :=
  match cs with
  | [] => Some []
  | c :: r =>
      match atoms_of r with
      | Some p =>
          if Ascii.eqb c "." then Some (AAny :: p)
          else if is_meta c then None
          else Some (AChar c :: p)
      | None => None
      end
  end.

(** [None] is the [SyntaxError] the constructor throws. *)
Definition RegExp `{Runtime} (s : string) : option regexp :=
  match atoms_of (list_ascii_of_string s) with
  | Some p => Some (Pattern p)
  | None =>
      match s with
      | String c _ =>
          if is_quantifier c then None
          else if RegExp_accepts s then Some (Opaque s) else None
      | EmptyString => None
      end
  end.

(** Case folding of the [i] flag on ASCII letters. *)
Definition fold_case (c : ascii) : ascii :=
  let n := nat_of_ascii c in
  if ((97 <=? n)%nat && (n <=? 122)%nat)%bool then ascii_of_nat (n - 32) else c.

Definition atom_matches (a : atom) (c : ascii) : bool :=
  match a with
  | AChar x => Ascii.eqb (fold_case x) (fold_case c)
  | AAny => negb (Ascii.eqb c (ascii_of_nat 10))
  end.

Fixpoint match_here (p : list atom) (t : list ascii) : bool :=
  match p, t with
  | [], _ => true
  | a :: p', c :: t' => atom_matches a c && match_here p' t'
  | _ :: _, [] => false
  end.

Fixpoint search_in (p : list atom) (t : list ascii) : bool :=
  match_here p t ||
  match t with
  | [] => false
  | _ :: t' => search_in p t'
  end.

(** [re.test(text)] for an unanchored pattern. *)
Definition regexp_test `{Runtime} (re : regexp) (text : string) : bool :=
  match re with
  | Pattern p => search_in p (list_ascii_of_string text)
  | Opaque s => RegExp_test s text
  end.

(** ** Filters and how the store evaluates them *)

Record range (A : Type) : Type := { gte : option A; lte : option A }.
Arguments gte {A} _.
Arguments lte {A} _.

(** The filter object [buildChallengeFilters] returns.  [or_regex] stands for
    [$or: [{title: re}, {description: re}, {tags: re}]]. *)
Record filters : Type := {
  isPublished_in : list value;
  category_in : option (list string);
  startDate_range : option (range Z);
  participants_range : option (range number);
  or_regex : option regexp
}.

(** A query operator on a field applies to the value and, when the value is
    an array, to its elements. *)
Definition field_any (p : value -> bool) (v : option value) : bool :=
  match v with
  | Some (VArr items) => existsb p items || p (VArr items)
  | Some x => p x
  | None => false
  end.

(** [$in]: [null] in the list also matches a missing field. *)
Definition op_in (l : list value) (v : option value) : bool :=
  match v with
  | None => existsb (value_eqb VNull) l
  | Some _ => field_any (fun x => existsb (value_eqb x) l) v
  end.

Definition date_gte (bound : Z) (v : value) : bool :=
  match v with VDate t => (bound <=? t)%Z | _ => false end.

Definition date_lte (bound : Z) (v : value) : bool :=
  match v with VDate t => (t <=? bound)%Z | _ => false end.

(** A [NaN] bound compares true with [NaN] only, which no stored integer is. *)
Definition num_gte (bound : number) (v : value) : bool :=
  match bound, v with Num b, VNum x => (b <=? x)%Z | _, _ => false end.

Definition num_lte (bound : number) (v : value) : bool :=
  match bound, v with Num b, VNum x => (x <=? b)%Z | _, _ => false end.

Definition in_range {A} (ge le : A -> value -> bool) (r : option (range A))
    (v : option value) : bool :=
  match r with
  | None => true
  | Some r =>
      match gte r with Some b => field_any (ge b) v | None => true end &&
      match lte r with Some b => field_any (le b) v | None => true end
  end.

Definition regex_field `{Runtime} (re : regexp) (v : option value) : bool :=
  field_any (fun x => match x with VStr s => regexp_test re s | _ => false end) v.

(** The [$or] of the three regular-expression criteria. *)
Definition search_criterion `{Runtime} (re : regexp) (d : doc) : bool :=
  regex_field re (d !! "title") || regex_field re (d !! "description")
  || regex_field re (d !! "tags").

Definition matches `{Runtime} (f : filters) (d : doc) : bool :=
  op_in (isPublished_in f) (d !! "isPublished")
  && match category_in f with
     | Some cats => op_in (map VStr cats) (d !! "category")
     | None => true
     end
  && in_range date_gte date_lte (startDate_range f) (d !! "startDate")
  && in_range num_gte num_lte (participants_range f) (d !! "participants")
  && match or_regex f with
     | Some re => search_criterion re d
     | None => true
     end.

(** ** [buildChallengeFilters] *)

(** [req.query], each parameter given at most once. *)
Record query : Type := {
  q_page : option string;
  q_limit : option string;
  q_category : option string;
  q_startDate : option string;
  q_endDate : option string;
  q_participantsMin : option string;
  q_participantsMax : option string;
  q_search : option string
}.

Definition str_value (o : option string) : option value := VStr <$> o.

(** [None] when the function throws (the [RegExp] constructor does). *)
Definition buildChallengeFilters `{Runtime} (q : query) : option filters :=
  let category :=
    match q_category q with
    | Some s =>
        if present (q_category q) then
          let cats := List.filter nonempty (map trim (split_comma s)) in
          match cats with [] => None | _ => Some cats end
        else None
    | None => None
    end in
  let startDate :=
    if present (q_startDate q) || present (q_endDate q) then
      let from := parseDateSafe (str_value (q_startDate q)) in
      let to := parseDateSafe (str_value (q_endDate q)) in
      match from, to with
      | None, None => None
      | _, _ => Some {| gte := from; lte := to |}
      end
    else None in
  let participants :=
    if present (q_participantsMin q) || present (q_participantsMax q) then
      Some {| gte := if present (q_participantsMin q)
                     then parseInt <$> q_participantsMin q else None;
              lte := if present (q_participantsMax q)
                     then parseInt <$> q_participantsMax q else None |}
    else None in
  let base re :=
    {| isPublished_in := [VBool true; VNull];
       category_in := category;
       startDate_range := startDate;
       participants_range := participants;
       or_regex := re |} in
  match q_search q with
  | Some s =>
      if present (q_search q) then
        match RegExp s with
        | Some re => Some (base (Some re))
        | None => None
        end
      else Some (base None)
  | None => Some (base None)
  end.

(** ** The database *)

(** A document of the [userChallenges] collection. *)
Record userChallenge : Type := {
  uc_id : string;
  uc_user : string;
  uc_challenge : string;
  uc_joinedAt : Z;
  uc_progress : Z;
  uc_status : string;
  uc_meta : value;
  uc_createdAt : Z;
  uc_updatedAt : Z
}.

(** [Collections.challenges], keyed by [_id], and [Collections.userChallenges]. *)
Record db : Type := {
  challenges : gmap string doc;
  userChallenges : list userChallenge
}.

Definition empty_db : db := {| challenges := ∅; userChallenges := [] |}.

(** What a handler catches: a thrown literal or a driver error. *)
Record error : Type := { code : option Z; message : string }.

Definition E11000 : error :=
  {| code := Some 11000; message := "E11000 duplicate key error" |}.

(** The calls a handler makes to the store; each can fail on its own. *)
Inductive store_call : Type :=
| Find
| CountDocuments
| FindOne
| InsertOne
| UpdateOne
| FindOneAndUpdate
| DeleteOne
| Commit.

(** Which store calls fail during a request, and with what error. *)
Definition faults : Type := store_call -> option error.

Definition no_faults : faults := fun _ => None.

(** ** Transactions: state and errors *)

Definition tx (A : Type) : Type := db -> error + (A * db).

Definition ret {A} (a : A) : tx A := fun st => inr (a, st).

Definition throw {A} (e : error) : tx A := fun _ => inl e.

Definition bind {A B} (m : tx A) (k : A -> tx B) : tx B :=
  fun st =>
    match m st with
    | inl e => inl e
    | inr (a, st') => k a st'
    end.

Notation "'do' x <- m ; k" := (bind m (fun x => k))
  (at level 10, x name, m at level 100, k at level 200).
Notation "m ;; k" := (bind m (fun _ => k))
  (at level 100, k at level 200, right associativity).

(** A store call that the environment may fail. *)
Definition attempt (f : faults) (c : store_call) : tx unit :=
  fun st =>
    match f c with
    | Some e => inl e
    | None => inr (tt, st)
    end.

(** [session.withTransaction]: the effects of a body that throws, or whose
    commit fails, are discarded. *)
Definition withTransaction {A} (f : faults) (body : tx A) (st : db)
    : (error + A) * db :=
  match body st with
  | inl e => (inl e, st)
  | inr (a, st') =>
      match f Commit with
      | Some e => (inl e, st)
      | None => (inr a, st')
      end
  end.

(** ** Store operations *)

(** The key a missing field has in an index. *)
Definition index_key (v : option value) : value := default VNull v.

Definition same_pair (a b : userChallenge) : bool :=
  (uc_user a =? uc_user b)%string && (uc_challenge a =? uc_challenge b)%string.

(** [userChallenges.insertOne]: [_id] and the pair (user, challenge) are unique. *)
Definition insert_userChallenge (uc : userChallenge) : tx unit :=
  fun st =>
    if existsb (fun r => (uc_id r =? uc_id uc)%string || same_pair r uc)
         (userChallenges st)
    then inl E11000
    else inr (tt, {| challenges := challenges st;
                     userChallenges := userChallenges st ++ [uc] |}).

(** [$inc: {participants: 1}]: a missing field starts from 0, a field that is
    not a number is an error. *)
Definition inc_participants (d : doc) : error + doc :=
  match d !! "participants" with
  | None => inr (<["participants" := VNum 1]> d)
  | Some (VNum n) => inr (<["participants" := VNum (n + 1)]> d)
  | Some _ =>
      inl {| code := Some 14;
             message := "Cannot apply $inc to a value of non-numeric type" |}
  end.

(** [challenges.updateOne({_id}, {$inc: {participants: 1}, $set: {updatedAt}})] *)
Definition inc_challenge (cid : string) (now : Z) : tx unit :=
  fun st =>
    match challenges st !! cid with
    | None => inr (tt, st)
    | Some d =>
        match inc_participants d with
        | inl e => inl e
        | inr d' =>
            inr (tt, {| challenges :=
                          <[cid := <["updatedAt" := VDate now]> d']> (challenges st);
                        userChallenges := userChallenges st |})
        end
    end.

(** Whether a document other than [self] already has this slug. *)
Definition slug_taken (self : string) (slug : option value)
    (cs : gmap string doc) : bool :=
  existsb (fun kd => negb (fst kd =? self)%string
                     && value_eqb (index_key (snd kd !! "slug")) (index_key slug))
    (map_to_list cs).

(** [challenges.insertOne]: [_id] and [slug] are unique. *)
Definition insert_challenge (cid : string) (d : doc) (st : db) : error + db :=
  match challenges st !! cid with
  | Some _ => inl E11000
  | None =>
      if slug_taken cid (d !! "slug") (challenges st) then inl E11000
      else inr {| challenges := <[cid := d]> (challenges st);
                  userChallenges := userChallenges st |}
  end.

(** [challenges.findOneAndUpdate({_id}, {$set: data}, {returnDocument: "after"})]
    for a [data] whose keys are names of top-level fields: every field of
    [data] replaces the stored one; [_id] cannot be set and [slug] stays
    unique.  The store reads a key with a dot as a path into a field
    ([tags.0] is the first tag); paths are not followed here, and what is
    proved of the written document is stated for bodies of top-level names
    (see [top_level]). *)
Definition set_challenge (cid : string) (data : doc) (st : db)
    : error + (option doc * db) :=
  match challenges st !! cid with
  | None => inr (None, st)
  | Some d =>
      match data !! "_id" with
      | Some _ =>
          inl {| code := Some 66;
                 message := "Performing an update on the path '_id' would modify the immutable field '_id'" |}
      | None =>
          let d' : doc := data ∪ d in
          if slug_taken cid (d' !! "slug") (challenges st) then inl E11000
          else inr (Some d', {| challenges := <[cid := d']> (challenges st);
                                userChallenges := userChallenges st |})
      end
  end.

Definition delete_one (cid : string) (st : db) : db :=
  {| challenges := delete cid (challenges st);
     userChallenges := userChallenges st |}.

(** ** Requests and responses *)

(** [req.user], as the authentication middleware leaves it. *)
Record user : Type := { uid : string; isAdmin : bool; user_id : option string }.

Inductive payload : Type :=
| Message (m : string)
| Challenge (cid : string) (d : doc)
| Updated (d : option doc)
| Listing (page limit : number) (total : nat) (items : list (string * doc))
| Joined (userChallenge : userChallenge).

(** [res.status(status).json(body)] *)
Record response : Type := { status : Z; body : payload }.

Definition reply (s : Z) (m : string) : response :=
  {| status := s; body := Message m |}.

Definition server_error : response := reply 500 "Server error".

Section Routes.
Context `{Runtime}.

(** *** [GET /challenges] *)

Definition num_sub (a : number) (b : Z) : number :=
  match a with NaN => NaN | Num x => Num (x - b) end.

Definition num_mul (a b : number) : number :=
  match a, b with Num x, Num y => Num (x * y) | _, _ => NaN end.

(** [parseInt(req.query.page || "1", 10)] and the like. *)
Definition parse_or (o : option string) (dflt : string) : number :=
  parseInt (match o with
            | Some s => if present o then s else dflt
            | None => dflt
            end).

Definition effective_page (q : query) : number :=
  Math_max 1 (parse_or (q_page q) "1").

Definition effective_limit (q : query) : number :=
  Math_min 100 (parse_or (q_limit q) "10").

Definition effective_skip (q : query) : number :=
  num_mul (num_sub (effective_page q) 1) (effective_limit q).

(** The ascending order of [sort({startDate: 1})]. *)
Definition startDate_le (a b : string * doc) : bool :=
  match snd a !! "startDate", snd b !! "startDate" with
  | Some (VDate x), Some (VDate y) => (x <=? y)%Z
  | x, y => bson_le x y
  end.

Fixpoint insert_by (le : string * doc -> string * doc -> bool)
    (x : string * doc) (l : list (string * doc)) : list (string * doc) :=
  match l with
  | [] => [x]
  | y :: r => if le x y then x :: l else y :: insert_by le x r
  end.

Definition sort_by_startDate (l : list (string * doc)) : list (string * doc) :=
  foldr (insert_by startDate_le) [] l.

(** [cursor.skip(n)]: the store rejects a skip that is negative or [NaN]. *)
Definition cursor_skip (n : number) (l : list (string * doc))
    : option (list (string * doc)) :=
  match n with
  | Num k => if (0 <=? k)%Z then Some (drop (Z.to_nat k) l) else None
  | NaN => None
  end.

(** [cursor.limit(n)]: 0 is no limit, a negative limit counts as its absolute
    value, [NaN] is rejected. *)
Definition cursor_limit (n : number) (l : list (string * doc))
    : option (list (string * doc)) :=
  match n with
  | Num 0 => Some l
  | Num k => Some (take (Z.to_nat (Z.abs k)) l)
  | NaN => None
  end.

Definition get_challenges (q : query) (f : faults) (st : db) : response :=
  let page := effective_page q in
  let limit := effective_limit q in
  let skip := effective_skip q in
  match buildChallengeFilters q with
  | None => server_error
  | Some filters =>
      match f Find, f CountDocuments with
      | None, None =>
          let found :=
            List.filter (fun kd => matches filters (snd kd))
              (map_to_list (challenges st)) in
          match cursor_skip skip (sort_by_startDate found) with
          | Some rest =>
              match cursor_limit limit rest with
              | Some items =>
                  {| status := 200;
                     body := Listing page limit (length found) items |}
              | None => server_error
              end
          | None => server_error
          end
      | _, _ => server_error
      end
  end.

(** *** [GET /challenges/:id] *)

Definition get_challenge (cid : string) (f : faults) (st : db) : response :=
  if negb (ObjectId_isValid cid) then reply 400 "Invalid id"
  else match f FindOne with
       | Some _ => server_error
       | None =>
           match challenges st !! ObjectId_hex cid with
           | None => reply 404 "Not found"
           | Some c => {| status := 200; body := Challenge (ObjectId_hex cid) c |}
           end
       end.

(** *** [POST /challenges] *)

Definition required : list string :=
  ["title"; "slug"; "description"; "startDate"; "endDate"].

Definition date_or_null (t : option Z) : value :=
  match t with Some t => VDate t | None => VNull end.

(** The document the handler builds; [None] when [new ObjectId(req.user.id)]
    throws. *)
Definition new_challenge (u : user) (b : doc) (startDate endDate now : Z)
    : option doc :=
  let owner :=
    match user_id u with
    | Some s =>
        if present (user_id u) then
          if ObjectId_isValid s then Some (VOid (ObjectId_hex s)) else None
        else Some VNull
    | None => Some VNull
    end in
  match owner with
  | None => None
  | Some owner =>
      Some (list_to_map
        [("title", index_key (b !! "title"));
         ("slug", index_key (b !! "slug"));
         ("description", index_key (b !! "description"));
         ("category", or_else (b !! "category") VNull);
         ("tags", match b !! "tags" with
                  | Some (VArr l) => VArr l
                  | Some v => if truthy (b !! "tags") then VArr [v] else VArr []
                  | None => VArr []
                  end);
         ("owner", owner);
         ("startDate", VDate startDate);
         ("endDate", VDate endDate);
         ("participants", match b !! "participants" with
                          | Some (VNum n) => VNum n
                          | _ => VNum 0
                          end);
         ("maxParticipants", or_else (b !! "maxParticipants") VNull);
         ("location", or_else (b !! "location") VNull);
         ("image", or_else (b !! "image") VNull);
         ("isPublished", match b !! "isPublished" with
                         | Some (VBool p) => VBool p
                         | _ => VBool true
                         end);
         ("metadata", or_else (b !! "metadata") VNull);
         ("createdAt", VDate now);
         ("updatedAt", VDate now)])
  end.

(** [newId] is the [_id] the driver generates for the inserted document. *)
Definition post_challenges (u : option user) (b : doc) (now : Z)
    (newId : string) (f : faults) (st : db) : response * db :=
  match u with
  | None => (reply 401 "Unauthorized", st)
  | Some u =>
      match List.find (fun k => negb (truthy (b !! k))) required with
      | Some k => (reply 400 ("Missing field: " ++ k), st)
      | None =>
          match parseDateSafe (b !! "startDate"), parseDateSafe (b !! "endDate") with
          | Some startDate, Some endDate =>
              match new_challenge u b startDate endDate now with
              | None => (server_error, st)
              | Some d =>
                  let inserted :=
                    match f InsertOne with
                    | Some e => inl e
                    | None => insert_challenge newId d st
                    end in
                  match inserted with
                  | inr st' => ({| status := 201; body := Challenge newId d |}, st')
                  | inl e =>
                      if bool_decide (code e = Some 11000)
                      then (reply 409 "Slug already exists", st)
                      else (server_error, st)
                  end
              end
          | _, _ => (reply 400 "Invalid date format", st)
          end
      end
  end.

(** *** [PATCH /challenges/:id] and [DELETE /challenges/:id] *)

Definition isOwner (existing : doc) (u : user) : bool :=
  truthy (existing !! "owner") && present (user_id u)
  && match existing !! "owner", user_id u with
     | Some o, Some s => (toString o =? s)%string
     | _, _ => false
     end.

Definition reparse (k : string) (data : doc) : doc :=
  if truthy (data !! k)
  then <[k := date_or_null (parseDateSafe (data !! k))]> data
  else data.

(** [data] after the handler has re-parsed the dates and set [updatedAt]. *)
Definition update_data (b : doc) (now : Z) : doc :=
  <["updatedAt" := VDate now]> (reparse "endDate" (reparse "startDate" b)).

Definition patch_challenge (u : option user) (cid : string) (b : doc)
    (now : Z) (f : faults) (st : db) : response * db :=
  match u with
  | None => (reply 401 "Unauthorized", st)
  | Some u =>
      if negb (ObjectId_isValid cid) then (reply 400 "Invalid id", st)
      else match f FindOne with
           | Some _ => (server_error, st)
           | None =>
               match challenges st !! ObjectId_hex cid with
               | None => (reply 404 "Not found", st)
               | Some existing =>
                   if negb (isOwner existing u) && negb (isAdmin u)
                   then (reply 403 "Forbidden", st)
                   else
                     let updated :=
                       match f FindOneAndUpdate with
                       | Some e => inl e
                       | None =>
                           set_challenge (ObjectId_hex cid) (update_data b now) st
                       end in
                     match updated with
                     | inr (d, st') => ({| status := 200; body := Updated d |}, st')
                     | inl _ => (server_error, st)
                     end
               end
           end
  end.

Definition delete_challenge (u : option user) (cid : string)
    (f : faults) (st : db) : response * db :=
  match u with
  | None => (reply 401 "Unauthorized", st)
  | Some u =>
      if negb (ObjectId_isValid cid) then (reply 400 "Invalid id", st)
      else match f FindOne with
           | Some _ => (server_error, st)
           | None =>
               match challenges st !! ObjectId_hex cid with
               | None => (reply 404 "Not found", st)
               | Some existing =>
                   if negb (isOwner existing u) && negb (isAdmin u)
                   then (reply 403 "Forbidden", st)
                   else match f DeleteOne with
                        | Some _ => (server_error, st)
                        | None =>
                            (reply 200 "Deleted", delete_one (ObjectId_hex cid) st)
                        end
               end
           end
  end.

(** *** [POST /challenges/join/:id] *)

Definition ucDoc (userId challengeId : string) (now : Z) (newId : string)
    : userChallenge :=
  {| uc_id := newId;
     uc_user := ObjectId_hex userId;
     uc_challenge := ObjectId_hex challengeId;
     uc_joinedAt := now;
     uc_progress := 0;
     uc_status := "joined";
     uc_meta := VNull;
     uc_createdAt := now;
     uc_updatedAt := now |}.

(** The callback passed to [session.withTransaction]. *)
Definition join_body (userId challengeId : string) (now : Z) (newId : string)
    (f : faults) : tx userChallenge :=
  attempt f FindOne ;;
  do challenge <- (fun st => inr (challenges st !! ObjectId_hex challengeId, st)) ;
  match challenge with
  | None => throw {| code := Some 404; message := "Challenge not found" |}
  | Some challenge =>
      if truthy (challenge !! "maxParticipants")
         && js_ge (challenge !! "participants") (challenge !! "maxParticipants")
      then throw {| code := Some 400; message := "Challenge is full" |}
      else
        let uc := ucDoc userId challengeId now newId in
        attempt f InsertOne ;;
        insert_userChallenge uc ;;
        attempt f UpdateOne ;;
        inc_challenge (ObjectId_hex challengeId) now ;;
        ret uc
  end.

(** [err.message || dflt] *)
Definition message_or (e : error) (dflt : string) : string :=
  if (message e =? "")%string then dflt else message e.

Definition join_catch (e : error) : response :=
  if bool_decide (code e = Some 11000)
  then reply 409 "User already joined this challenge"
  else if bool_decide (code e = Some 404)
  then reply 404 (message_or e "Not found")
  else if bool_decide (code e = Some 400)
  then reply 400 (message_or e "Bad request")
  else reply 500 "Failed to join".

Definition post_challenges_join (u : option user) (challengeId : string)
    (now : Z) (newId : string) (f : faults) (st : db) : response * db :=
  match u with
  | None => (reply 401 "Unauthorized", st)
  | Some u =>
      match user_id u with
      | Some userId =>
          if negb (present (user_id u)) || negb (ObjectId_isValid userId)
          then (reply 400 "Your mock-user token must include a valid ObjectId after colon (mock-user:<id>)", st)
          else if negb (ObjectId_isValid challengeId)
          then (reply 400 "Invalid challenge id", st)
          else
            match withTransaction f (join_body userId challengeId now newId f) st with
            | (inr createdUC, st') =>
                ({| status := 201; body := Joined createdUC |}, st')
            | (inl err, st') => (join_catch err, st')
            end
      | None =>
          (reply 400 "Your mock-user token must include a valid ObjectId after colon (mock-user:<id>)", st)
      end
  end.

End Routes.

(** ** Reading the state *)


Definition members (challengeOid : string) (l : list userChallenge) : Z :=
  Z.of_nat (length (List.filter (fun r => (uc_challenge r =? challengeOid)%string) l)).

(** ** A runtime for the examples

    It agrees with Node.js and the driver on the values the examples use:
    24 hexadecimal digits make an ObjectId, whose text is in lower case, and
    the two date strings are the ones the examples send. *)

Definition is_hex (c : ascii) : bool :=
  let n := nat_of_ascii c in
  ((48 <=? n)%nat && (n <=? 57)%nat) || ((97 <=? n)%nat && (n <=? 102)%nat)
  || ((65 <=? n)%nat && (n <=? 70)%nat).

Definition lower_hex (c : ascii) : ascii :=
  let n := nat_of_ascii c in
  if ((65 <=? n)%nat && (n <=? 70)%nat)%bool then ascii_of_nat (n + 32) else c.

Definition node : Runtime := {|
  ObjectId_isValid s :=
    (String.length s =? 24)%nat && forallb is_hex (list_ascii_of_string s);
  ObjectId_hex s := string_of_list_ascii (map lower_hex (list_ascii_of_string s));
  Date_getTime v :=
    match v with
    | VStr "2024-01-01" => Some 1704067200000
    | VStr "2024-12-31" => Some 1735603200000
    | VNum n => Some n
    | VDate t => Some t
    | _ => None
    end;
  Object_toString _ := "[object Object]";
  coerced_ge _ _ := false;
  bson_le _ _ := true;
  RegExp_accepts _ := false;
  RegExp_test _ _ := false
|}.

Definition alice : user :=
  {| uid := "mock-user:aaaaaaaaaaaaaaaaaaaaaaaa"; isAdmin := false;
     user_id := Some "aaaaaaaaaaaaaaaaaaaaaaaa" |}.

Definition bob : user :=
  {| uid := "mock-user:bbbbbbbbbbbbbbbbbbbbbbbb"; isAdmin := false;
     user_id := Some "bbbbbbbbbbbbbbbbbbbbbbbb" |}.

Definition cleanup_id : string := "0123456789abcdef01234567".

(** A request body for [POST /challenges]. *)
Definition cleanup_body : doc :=
  list_to_map
    [("title", VStr "Beach cleanup"); ("slug", VStr "beach-cleanup");
     ("description", VStr "Collect litter on the shore");
     ("startDate", VStr "2024-01-01"); ("endDate", VStr "2024-12-31");
     ("tags", VArr [VStr "water"; VStr "plastic"])].

(** The database after Alice has created the challenge with room for one. *)
Definition db_created : db :=
  snd (@post_challenges node (Some alice)
         (<["maxParticipants" := VNum 1]> cleanup_body) 1000 cleanup_id no_faults empty_db).

(** ... and after Bob has joined it. *)
Definition db_joined : db :=
  snd (@post_challenges_join node (Some bob) cleanup_id 2000
         "0123456789abcdef01234568" no_faults db_created).

(** ** Sequences of requests *)

(** The requests that write to the database. *)
Inductive request : Type :=
| Create (u : option user) (b : doc) (now : Z) (newId : string) (f : faults)
| Update (u : option user) (cid : string) (b : doc) (now : Z) (f : faults)
| Delete (u : option user) (cid : string) (f : faults)
| Join (u : option user) (cid : string) (now : Z) (newId : string) (f : faults).

Definition handle `{Runtime} (r : request) (st : db) : response * db :=
  match r with
  | Create u b now newId f => post_challenges u b now newId f st
  | Update u cid b now f => patch_challenge u cid b now f st
  | Delete u cid f => delete_challenge u cid f st
  | Join u cid now newId f => post_challenges_join u cid now newId f st
  end.

(** The [_id] the driver generates for a new challenge has never been used:
    no challenge has it and no membership row refers to it. *)
Definition generated_fresh (r : request) (st : db) : Prop :=
  match r with
  | Create _ _ _ newId _ =>
      challenges st !! newId = None ∧ members newId (userChallenges st) = 0
  | _ => True
  end.

(** The databases a sequence of [allowed] requests leads to from the empty one. *)
Inductive reachable `{Runtime} (allowed : request -> Prop) : db -> Prop :=
| reachable_empty : reachable allowed empty_db
| reachable_step st r :
    reachable allowed st → allowed r → generated_fresh r st →
    reachable allowed (snd (handle r st)).

(** What C2 asks of a database: a challenge whose [maxParticipants] is an
    integer has a [participants] that does not exceed it and that counts its
    rows.  (Numbers are integers here; a capacity with a fraction, which the
    code would store as sent, is outside this statement.) *)
Definition capacity_respected (st : db) : Prop :=
  ∀ cid d N,
    challenges st !! cid = Some d → d !! "maxParticipants" = Some (VNum N) →
    ∃ p, d !! "participants" = Some (VNum p) ∧ p ≤ N
         ∧ p = members cid (userChallenges st).

(** Requests that leave the counter to the join route: a create without a
    numeric [participants] and whose [maxParticipants], when it is a number,
    is a non-negative integer; an update that provides neither field; any
    delete and any join. *)
Definition counter_safe (r : request) : Prop :=
  match r with
  | Create _ b _ _ _ =>
      (∀ n, b !! "participants" ≠ Some (VNum n))
      ∧ (∀ N, b !! "maxParticipants" = Some (VNum N) → 0 ≤ N)
  | Update _ _ b _ _ =>
      b !! "participants" = None ∧ b !! "maxParticipants" = None
  | Delete _ _ _ => True
  | Join _ _ _ _ _ => True
  end.

(** The invariant of the counter: every challenge counts its rows, and a
    numeric [maxParticipants] is positive and not exceeded. *)
Definition consistent (st : db) : Prop :=
  ∀ cid d,
    challenges st !! cid = Some d →
    ∃ p, d !! "participants" = Some (VNum p)
         ∧ p = members cid (userChallenges st)
         ∧ ∀ N, d !! "maxParticipants" = Some (VNum N) → 0 < N ∧ p ≤ N.

(** A create request that brings its own counter: 5 participants, room for 3. *)
Definition oversold : request :=
  Create (Some alice)
    (<["participants" := VNum 5]> (<["maxParticipants" := VNum 3]> cleanup_body))
    1000 cleanup_id no_faults.

Definition db_oversold : db := snd (@handle node oversold empty_db).


(** The same challenge created without a capacity, and joined by Bob. *)
Definition db_open : db :=
  snd (@post_challenges node (Some alice)
         (<["maxParticipants" := VNum 0]> cleanup_body) 1000 cleanup_id no_faults empty_db).

Definition db_open_joined : db :=
  snd (@post_challenges_join node (Some bob) cleanup_id 2000
         "0123456789abcdef01234568" no_faults db_open).

(** The response the capacity check ends with. *)
Definition challenge_is_full : response := reply 400 "Challenge is full".



(** ** Queries for the examples, and what "occurs in" means *)

Definition no_query : query :=
  {| q_page := None; q_limit := None; q_category := None; q_startDate := None;
     q_endDate := None; q_participantsMin := None; q_participantsMax := None;
     q_search := None |}.

Definition with_limit (s : string) : query :=
  {| q_page := None; q_limit := Some s; q_category := None; q_startDate := None;
     q_endDate := None; q_participantsMin := None; q_participantsMax := None;
     q_search := None |}.

Definition with_participantsMax (s : string) : query :=
  {| q_page := None; q_limit := None; q_category := None; q_startDate := None;
     q_endDate := None; q_participantsMin := None; q_participantsMax := Some s;
     q_search := None |}.

Definition with_search (s : string) : query :=
  {| q_page := None; q_limit := None; q_category := None; q_startDate := None;
     q_endDate := None; q_participantsMin := None; q_participantsMax := None;
     q_search := Some s |}.

(** A string read without regard to the case of its letters. *)
Definition folded (s : string) : list ascii :=
  map fold_case (list_ascii_of_string s).

(** Following the spec's words: [S] occurs, case-insensitively, as a
    substring of [t]. *)
Definition occurs (S t : string) : Prop :=
  ∃ pre post, folded t = (pre ++ folded S ++ post)%list.

(** A search string without regular-expression metacharacters. *)
Definition literal (S : string) : bool :=
  forallb (fun c => negb (is_meta c)) (list_ascii_of_string S).

(** A challenge titled "abc". *)
Definition abc_challenge : doc :=
  list_to_map
    [("title", VStr "abc"); ("description", VStr "x"); ("tags", VArr [])].

(** The example database with a second challenge, created by Bob under the
    slug "river-cleanup". *)
Definition db_two : db :=
  snd (@post_challenges node (Some bob)
         (<["slug" := VStr "river-cleanup"]> cleanup_body) 1500
         "0123456789abcdef01234560" no_faults db_created).

(** * Properties *)

(** ** The helpers on a few inputs *)

Example parseInt_42 : parseInt " 42px" = Num 42.
Proof. reflexivity. Qed.

Example parseInt_negative : parseInt "-5" = Num (-5).
Proof. reflexivity. Qed.

Example parseInt_abc : parseInt "abc" = NaN.
Proof. reflexivity. Qed.

Example page_abc : effective_page
  {| q_page := Some "abc"; q_limit := None; q_category := None;
     q_startDate := None; q_endDate := None; q_participantsMin := None;
     q_participantsMax := None; q_search := None |} = NaN.
Proof. reflexivity. Qed.

Example split_trim :
  List.filter nonempty (map trim (split_comma "water, energy ,,")) = ["water"; "energy"].
Proof. reflexivity. Qed.

Example RegExp_star `{Runtime} : RegExp "*" = None.
Proof. reflexivity. Qed.

Example invalid_date_is_dropped :
  @buildChallengeFilters node
    {| q_page := None; q_limit := None; q_category := None;
       q_startDate := Some "garbage"; q_endDate := None;
       q_participantsMin := None; q_participantsMax := None; q_search := None |}
  = @buildChallengeFilters node no_query.
Proof. reflexivity. Qed.

(** ** The join route *)

Section Join.
Context `{Runtime}.

Lemma join_catch_not_201 (e : error) : status (join_catch e) ≠ 201.
Proof.
  unfold join_catch. repeat case_bool_decide; simpl; lia.
Qed.

(** What a body that returns has done, step by step. *)
Lemma join_body_returns userId cid now newId f st uc st' :
  join_body userId cid now newId f st = inr (uc, st') →
  ∃ c c',
    f FindOne = None ∧
    challenges st !! ObjectId_hex cid = Some c ∧
    truthy (c !! "maxParticipants")
      && js_ge (c !! "participants") (c !! "maxParticipants") = false ∧
    f InsertOne = None ∧
    existsb (fun r => (uc_id r =? uc_id uc)%string || same_pair r uc)
      (userChallenges st) = false ∧
    f UpdateOne = None ∧
    inc_participants c = inr c' ∧
    uc = ucDoc userId cid now newId ∧
    st' = {| challenges :=
               <[ObjectId_hex cid := <["updatedAt" := VDate now]> c']> (challenges st);
             userChallenges := (userChallenges st ++ [uc])%list |}.
Proof.
  unfold join_body, bind, attempt, throw, ret, insert_userChallenge, inc_challenge.
  destruct (f FindOne) eqn:Hfind; [done|].
  destruct (challenges st !! ObjectId_hex cid) as [c|] eqn:Hc; [|done].
  destruct (truthy (c !! "maxParticipants") && js_ge _ _) eqn:Hfull; [done|].
  destruct (f InsertOne) eqn:Hins; [done|].
  destruct (existsb _ (userChallenges st)) eqn:Hdup; [done|].
  destruct (f UpdateOne) eqn:Hupd; [done|].
  cbn [challenges userChallenges]. rewrite Hc.
  destruct (inc_participants c) as [e|c'] eqn:Hinc; [done|].
  intros [= <- <-]. exists c, c'. done.
Qed.

(** A body that throws leaves nothing behind, whatever it did before. *)
Lemma withTransaction_throws {A} f (body : tx A) st e st' :
  withTransaction f body st = (inl e, st') → st' = st.
Proof.
  unfold withTransaction. destruct (body st) as [e'|[a st'']].
  - by intros [= _ <-].
  - destruct (f Commit); by intros [= <-] || intros [= _ <-].
Qed.

Lemma withTransaction_returns {A} f (body : tx A) st a st' :
  withTransaction f body st = (inr a, st') →
  body st = inr (a, st') ∧ f Commit = None.
Proof.
  unfold withTransaction. destruct (body st) as [e'|[a' st'']]; [done|].
  destruct (f Commit); [done|]. by intros [= <- <-].
Qed.

Lemma inc_participants_inr c c' :
  inc_participants c = inr c' →
  ∃ n, (c !! "participants" = Some (VNum n) ∨ c !! "participants" = None ∧ n = 0)
       ∧ c' = <["participants" := VNum (n + 1)]> c.
Proof.
  unfold inc_participants.
  destruct (c !! "participants") as [[]|] eqn:Hp; try done.
  - intros [= <-]. exists n. eauto.
  - intros [= <-]. exists 0. eauto.
Qed.


(** The outcome of a join request that is answered with 201. *)
Lemma join_201 u cid now newId f st :
  status (fst (post_challenges_join u cid now newId f st)) = 201 →
  ∃ usr userId uc,
    u = Some usr ∧ user_id usr = Some userId ∧
    ObjectId_isValid userId = true ∧ ObjectId_isValid cid = true ∧
    f Commit = None ∧
    post_challenges_join u cid now newId f st
      = ({| status := 201; body := Joined uc |},
         snd (post_challenges_join u cid now newId f st)) ∧
    join_body userId cid now newId f st
      = inr (uc, snd (post_challenges_join u cid now newId f st)).
Proof.
  unfold post_challenges_join.
  destruct u as [usr|]; [|simpl; lia].
  destruct (user_id usr) as [userId|] eqn:Hid; [|simpl; lia].
  destruct (negb (present (Some userId)) || negb (ObjectId_isValid userId)) eqn:Hv;
    [simpl; lia|].
  destruct (negb (ObjectId_isValid cid)) eqn:Hc; [simpl; lia|].
  destruct (withTransaction _ _ st) as [[e|uc] st'] eqn:Htx.
  - intros Hs. by apply join_catch_not_201 in Hs.
  - intros _. apply withTransaction_returns in Htx as [Hbody Hcommit].
    exists usr, userId, uc. cbn [fst snd].
    apply orb_false_elim in Hv as [_ Hv].
    apply negb_false_iff in Hv, Hc. done.
Qed.

Lemma join_not_201 u cid now newId f st :
  status (fst (post_challenges_join u cid now newId f st)) ≠ 201 →
  snd (post_challenges_join u cid now newId f st) = st.
Proof.
  unfold post_challenges_join.
  destruct u as [usr|]; [|done].
  destruct (user_id usr) as [userId|]; [|done].
  destruct (negb _ || negb _); [done|].
  destruct (negb (ObjectId_isValid cid)); [done|].
  destruct (withTransaction _ _ st) as [[e|uc] st'] eqn:Htx.
  - intros _. by apply withTransaction_throws in Htx.
  - simpl. lia.
Qed.


(** Past the checks on the two identifiers, the handler is the transaction
    and the mapping of its outcome. *)
Lemma join_checked usr userId cid now newId f st :
  user_id usr = Some userId → userId ≠ "" →
  ObjectId_isValid userId = true → ObjectId_isValid cid = true →
  post_challenges_join (Some usr) cid now newId f st
  = match withTransaction f (join_body userId cid now newId f) st with
    | (inr createdUC, st') => ({| status := 201; body := Joined createdUC |}, st')
    | (inl err, st') => (join_catch err, st')
    end.
Proof.
  intros Hid Hne Hu Hc. unfold post_challenges_join. rewrite Hid.
  assert (present (Some userId) = true) as ->.
  { unfold present. apply negb_true_iff, String.eqb_neq, Hne. }
  rewrite Hu, Hc. done.
Qed.

Lemma join_body_full userId cid now newId f st c :
  f FindOne = None →
  challenges st !! ObjectId_hex cid = Some c →
  truthy (c !! "maxParticipants")
    && js_ge (c !! "participants") (c !! "maxParticipants") = true →
  join_body userId cid now newId f st
  = inl {| code := Some 400; message := "Challenge is full" |}.
Proof.
  intros Hf Hc Hfull. unfold join_body, bind, attempt, throw.
  by rewrite Hf, Hc, Hfull.
Qed.

(** C4.  A join request, by a caller with a valid identity and for a valid
    id, on an existing challenge whose [maxParticipants] is a number other
    than 0 and whose [participants] has reached it, is answered with 400
    "Challenge is full"; no row is inserted and the counter is not changed. *)
Theorem join_full_challenge (usr : user) (userId cid : string) (now : Z)
    (newId : string) (f : faults) (st : db) (c : doc) (N p : Z) :
  user_id usr = Some userId → userId ≠ "" →
  ObjectId_isValid userId = true → ObjectId_isValid cid = true →
  f FindOne = None →
  challenges st !! ObjectId_hex cid = Some c →
  c !! "maxParticipants" = Some (VNum N) → N ≠ 0 →
  c !! "participants" = Some (VNum p) → N ≤ p →
  post_challenges_join (Some usr) cid now newId f st
  = (reply 400 "Challenge is full", st).
Proof.
  intros Hid Hne Hu Hcid Hf Hc Hmax HN Hp Hle.
  rewrite (join_checked usr userId) by done.
  unfold withTransaction.
  rewrite (join_body_full userId cid now newId f st c); [done..|].
  rewrite Hmax, Hp. cbn [truthy js_ge].
  apply andb_true_intro. split.
  - apply negb_true_iff, Z.eqb_neq, HN.
  - apply Z.leb_le, Hle.
Qed.

Lemma join_body_duplicate userId cid now newId f st c r :
  f FindOne = None → f InsertOne = None →
  challenges st !! ObjectId_hex cid = Some c →
  truthy (c !! "maxParticipants")
    && js_ge (c !! "participants") (c !! "maxParticipants") = false →
  r ∈ userChallenges st →
  uc_user r = ObjectId_hex userId → uc_challenge r = ObjectId_hex cid →
  join_body userId cid now newId f st = inl E11000.
Proof.
  intros Hf Hi Hc Hfull Hr Hu Hch.
  unfold join_body, bind, attempt, throw, insert_userChallenge.
  rewrite Hf, Hc, Hfull, Hi.
  assert (existsb
            (fun r0 => (uc_id r0 =? uc_id (ucDoc userId cid now newId))%string
                       || same_pair r0 (ucDoc userId cid now newId))
            (userChallenges st) = true) as ->; [|done].
  apply existsb_exists. exists r. split; [by apply list_elem_of_In|].
  apply orb_true_iff. right. unfold same_pair, ucDoc. cbn [uc_user uc_challenge].
  by rewrite Hu, Hch, !String.eqb_refl.
Qed.

(** The unique index on (user, challenge) at work: with a row for the pair
    in place the body cannot return. *)
Lemma join_body_member userId cid now newId f st r :
  r ∈ userChallenges st →
  uc_user r = ObjectId_hex userId → uc_challenge r = ObjectId_hex cid →
  ∀ uc st', join_body userId cid now newId f st ≠ inr (uc, st').
Proof.
  intros Hr Hu Hch uc st' Hbody.
  apply join_body_returns in Hbody
    as (c & c' & _ & _ & _ & _ & Hdup & _ & _ & Huc & _).
  assert (existsb (fun r0 => (uc_id r0 =? uc_id uc)%string || same_pair r0 uc)
            (userChallenges st) = true) as Hex; [|congruence].
  apply existsb_exists. exists r. split; [by apply list_elem_of_In|].
  apply orb_true_iff. right. unfold same_pair. rewrite Huc, Hu, Hch.
  cbn [ucDoc uc_user uc_challenge]. by rewrite !String.eqb_refl.
Qed.

(** C3, amended.  When a membership row for (user, challenge) exists, a join
    request by that user for that challenge is never answered with 201 and
    leaves the database, the [participants] counter included, unchanged;
    when moreover the challenge exists and is not full, and neither the read
    nor the insert fails on the store's side, the answer is 409 "User already
    joined this challenge". *)
Theorem join_twice (usr : user) (userId cid : string) (now : Z)
    (newId : string) (f : faults) (st : db) (r : userChallenge) :
  user_id usr = Some userId →
  r ∈ userChallenges st →
  uc_user r = ObjectId_hex userId → uc_challenge r = ObjectId_hex cid →
  status (fst (post_challenges_join (Some usr) cid now newId f st)) ≠ 201
  ∧ snd (post_challenges_join (Some usr) cid now newId f st) = st
  ∧ (∀ c,
       userId ≠ "" →
       ObjectId_isValid userId = true → ObjectId_isValid cid = true →
       f FindOne = None → f InsertOne = None →
       challenges st !! ObjectId_hex cid = Some c →
       truthy (c !! "maxParticipants")
         && js_ge (c !! "participants") (c !! "maxParticipants") = false →
       fst (post_challenges_join (Some usr) cid now newId f st)
       = reply 409 "User already joined this challenge").
Proof.
  intros Hid Hr Hru Hrc.
  assert (Hs : status (fst (post_challenges_join (Some usr) cid now newId f st)) ≠ 201).
  { intros Hs.
    apply join_201 in Hs as (usr' & userId' & uc & [= <-] & Hid' & _ & _ & _ & _ & Hbody).
    rewrite Hid in Hid'. injection Hid' as <-.
    by eapply join_body_member in Hbody. }
  split; [done|]. split; [by apply join_not_201|].
  intros c Hne Hu Hcid Hf Hi Hc Hfull.
  rewrite (join_checked usr userId) by done.
  unfold withTransaction.
  by rewrite (join_body_duplicate userId cid now newId f st c r).
Qed.

Lemma join_catch_not_400 (e : error) :
  code e ≠ Some 400 → status (join_catch e) ≠ 400.
Proof.
  intros He. unfold join_catch. repeat case_bool_decide; simpl; done || lia.
Qed.

(** An error the body ends with is the "full" literal only if the capacity
    check fired; every other error has another code or comes from the store. *)
Lemma join_body_throws userId cid now newId f st e c :
  join_body userId cid now newId f st = inl e →
  challenges st !! ObjectId_hex cid = Some c →
  truthy (c !! "maxParticipants") = false →
  code e ≠ Some 400 ∨ ∃ call, f call = Some e.
Proof.
  unfold join_body, bind, attempt, throw, ret, insert_userChallenge, inc_challenge.
  intros Hbody Hc Hfalsy. revert Hbody.
  destruct (f FindOne) eqn:Hfind; [intros [= <-]; eauto|].
  rewrite Hc, Hfalsy. cbn [andb].
  destruct (f InsertOne) eqn:Hins; [intros [= <-]; eauto|].
  destruct (existsb _ (userChallenges st)); [intros [= <-]; by left|].
  destruct (f UpdateOne) eqn:Hupd; [intros [= <-]; eauto|].
  cbn [challenges userChallenges]. rewrite Hc.
  unfold inc_participants.
  destruct (c !! "participants") as [[]|]; intros [= <-] || intros [=]; by left.
Qed.

Lemma new_challenge_maxParticipants usr b s e now d :
  new_challenge usr b s e now = Some d →
  d !! "maxParticipants" = Some (or_else (b !! "maxParticipants") VNull).
Proof.
  unfold new_challenge.
  destruct (match user_id usr with Some _ => _ | None => _ end); [|done].
  intros [= <-]. done.
Qed.

End Join.


Section Lifecycle.
Context `{Runtime}.

Lemma create_201 u b now newId f st :
  status (fst (post_challenges u b now newId f st)) = 201 →
  ∃ usr s e d,
    u = Some usr ∧
    parseDateSafe (b !! "startDate") = Some s ∧
    parseDateSafe (b !! "endDate") = Some e ∧
    new_challenge usr b s e now = Some d ∧
    challenges st !! newId = None ∧
    post_challenges u b now newId f st
    = ({| status := 201; body := Challenge newId d |},
       {| challenges := <[newId := d]> (challenges st);
          userChallenges := userChallenges st |}).
Proof.
  unfold post_challenges.
  destruct u as [usr|]; [|simpl; lia].
  destruct (List.find _ required); [simpl; lia|].
  destruct (parseDateSafe (b !! "startDate")) as [s|]; [|simpl; lia].
  destruct (parseDateSafe (b !! "endDate")) as [e|]; [|simpl; lia].
  destruct (new_challenge usr b s e now) as [d|] eqn:Hd; [|simpl; lia].
  destruct (f InsertOne) as [err|].
  { case_bool_decide; simpl; lia. }
  unfold insert_challenge.
  destruct (challenges st !! newId) eqn:Hnew.
  { case_bool_decide; simpl; lia. }
  destruct (slug_taken _ _ _).
  { case_bool_decide; simpl; lia. }
  intros _. by exists usr, s, e, d.
Qed.

Lemma create_not_201 u b now newId f st :
  status (fst (post_challenges u b now newId f st)) ≠ 201 →
  snd (post_challenges u b now newId f st) = st.
Proof.
  unfold post_challenges.
  destruct u as [usr|]; [|done].
  destruct (List.find _ required); [done|].
  destruct (parseDateSafe (b !! "startDate")) as [s|]; [|done].
  destruct (parseDateSafe (b !! "endDate")) as [e|]; [|done].
  destruct (new_challenge usr b s e now) as [d|]; [|done].
  destruct (match f InsertOne with Some e0 => _ | None => _ end) as [err|st'].
  - by case_bool_decide.
  - simpl. lia.
Qed.

Lemma new_challenge_participants usr b s e now d :
  new_challenge usr b s e now = Some d →
  d !! "participants"
  = Some (match b !! "participants" with Some (VNum n) => VNum n | _ => VNum 0 end).
Proof.
  unfold new_challenge.
  destruct (match user_id usr with Some _ => _ | None => _ end); [|done].
  intros [= <-]. done.
Qed.

Lemma reparse_lookup_ne k k' (data : doc) :
  k ≠ k' → reparse k' data !! k = data !! k.
Proof.
  intros Hne. unfold reparse. destruct (truthy (data !! k')); [|done].
  by rewrite lookup_insert_ne.
Qed.

(** Apart from the two dates and [updatedAt], the handler passes the body on
    as it came. *)
Lemma update_data_lookup k b now :
  k ≠ "startDate" → k ≠ "endDate" → k ≠ "updatedAt" →
  update_data b now !! k = b !! k.
Proof.
  intros Hs He Hu. unfold update_data.
  rewrite lookup_insert_ne by done.
  by rewrite !reparse_lookup_ne.
Qed.

Lemma patch_200 u cid b now f st :
  status (fst (patch_challenge u cid b now f st)) = 200 →
  ∃ usr existing,
    u = Some usr ∧ ObjectId_isValid cid = true ∧
    challenges st !! ObjectId_hex cid = Some existing ∧
    negb (isOwner existing usr) && negb (isAdmin usr) = false ∧
    update_data b now !! "_id" = None ∧
    patch_challenge u cid b now f st
    = ({| status := 200; body := Updated (Some (update_data b now ∪ existing)) |},
       {| challenges :=
            <[ObjectId_hex cid := update_data b now ∪ existing]> (challenges st);
          userChallenges := userChallenges st |}).
Proof.
  unfold patch_challenge.
  destruct u as [usr|]; [|simpl; lia].
  destruct (negb (ObjectId_isValid cid)) eqn:Hv; [simpl; lia|].
  destruct (f FindOne); [simpl; lia|].
  destruct (challenges st !! ObjectId_hex cid) as [existing|] eqn:Hc; [|simpl; lia].
  destruct (negb (isOwner existing usr) && negb (isAdmin usr)) eqn:Hauth; [simpl; lia|].
  destruct (f FindOneAndUpdate); [simpl; lia|].
  unfold set_challenge. rewrite Hc.
  destruct (update_data b now !! "_id") eqn:Hid; [simpl; lia|].
  destruct (slug_taken _ _ _); [simpl; lia|].
  intros _. exists usr, existing. apply negb_false_iff in Hv. done.
Qed.

Lemma patch_not_200 u cid b now f st :
  status (fst (patch_challenge u cid b now f st)) ≠ 200 →
  snd (patch_challenge u cid b now f st) = st.
Proof.
  unfold patch_challenge.
  destruct u as [usr|]; [|done].
  destruct (negb (ObjectId_isValid cid)); [done|].
  destruct (f FindOne); [done|].
  destruct (challenges st !! ObjectId_hex cid) as [existing|]; [|done].
  destruct (negb (isOwner existing usr) && negb (isAdmin usr)); [done|].
  destruct (match f FindOneAndUpdate with Some e => _ | None => _ end)
    as [err|[d st']]; [done|].
  simpl. lia.
Qed.

Lemma delete_state u cid f st :
  snd (delete_challenge u cid f st) = st
  ∨ snd (delete_challenge u cid f st) = delete_one (ObjectId_hex cid) st.
Proof.
  unfold delete_challenge.
  destruct u as [usr|]; [|by left].
  destruct (negb (ObjectId_isValid cid)); [by left|].
  destruct (f FindOne); [by left|].
  destruct (challenges st !! ObjectId_hex cid) as [existing|]; [|by left].
  destruct (negb (isOwner existing usr) && negb (isAdmin usr)); [by left|].
  destruct (f DeleteOne); [by left | by right].
Qed.

Lemma members_app cid l1 l2 :
  members cid (l1 ++ l2) = members cid l1 + members cid l2.
Proof.
  unfold members. rewrite List.filter_app, length_app. lia.
Qed.

(** *** The invariant is kept by each route *)

Lemma join_consistent u cid now newId f st :
  consistent st → consistent (snd (post_challenges_join u cid now newId f st)).
Proof.
  intros Hinv.
  destruct (decide (status (fst (post_challenges_join u cid now newId f st)) = 201))
    as [Hs|Hs]; [|by rewrite join_not_201].
  apply join_201 in Hs as (usr & userId & uc & -> & Hid & _ & _ & _ & _ & Hbody).
  apply join_body_returns in Hbody
    as (c & c' & _ & Hc & Hfull & _ & _ & _ & Hinc & Huc & ->).
  apply inc_participants_inr in Hinc as (n & Hn & ->).
  destruct (Hinv _ _ Hc) as (p & Hp & Hcount & Hmax).
  assert (n = p) as ->.
  { destruct Hn as [Hn|[Hn _]]; congruence. }
  intros cid' d'. cbn [challenges userChallenges].
  rewrite members_app.
  assert (Hnew : uc_challenge uc = ObjectId_hex cid) by (by rewrite Huc).
  destruct (decide (cid' = ObjectId_hex cid)) as [->|Hne].
  - rewrite lookup_insert_eq. intros [= <-].
    exists (p + 1). split; [by rewrite lookup_insert_ne, lookup_insert_eq|]. split.
    + unfold members at 2. cbn [List.filter]. rewrite Hnew, String.eqb_refl.
      cbn [length]. lia.
    + intros N HN. rewrite !lookup_insert_ne in HN by done.
      destruct (Hmax N HN) as [Hpos Hle]. split; [done|].
      rewrite HN, Hp in Hfull. cbn [truthy js_ge] in Hfull.
      assert ((N =? 0) = false) as HN0 by (apply Z.eqb_neq; lia).
      rewrite HN0 in Hfull. cbn [negb andb] in Hfull.
      apply Z.leb_gt in Hfull. lia.
  - rewrite lookup_insert_ne by done. intros Hd'.
    destruct (Hinv _ _ Hd') as (q & Hq & Hqc & Hqm).
    exists q. split; [done|]. split; [|done].
    unfold members at 2. cbn [List.filter]. rewrite Hnew.
    assert ((ObjectId_hex cid =? cid')%string = false) as ->
      by (apply String.eqb_neq; congruence).
    cbn [length]. lia.
Qed.

Lemma create_consistent u b now newId f st :
  counter_safe (Create u b now newId f) →
  generated_fresh (Create u b now newId f) st →
  consistent st → consistent (snd (post_challenges u b now newId f st)).
Proof.
  intros [Hpart Hmaxb] [_ Hfresh] Hinv.
  destruct (decide (status (fst (post_challenges u b now newId f st)) = 201))
    as [Hs|Hs]; [|by rewrite create_not_201].
  apply create_201 in Hs as (usr & s & e & d & -> & _ & _ & Hd & _ & ->).
  intros cid' d'. cbn [snd challenges userChallenges].
  destruct (decide (cid' = newId)) as [->|Hne].
  - rewrite lookup_insert_eq. intros [= <-].
    exists 0. split; [|split; [done|]].
    + rewrite (new_challenge_participants _ _ _ _ _ _ Hd).
      destruct (b !! "participants") as [[]|] eqn:Hb; try done.
      by destruct (Hpart n).
    + intros N HN. rewrite (new_challenge_maxParticipants _ _ _ _ _ _ Hd) in HN.
      unfold or_else in HN.
      destruct (b !! "maxParticipants") as [v|] eqn:Hb; [|done].
      destruct (truthy (Some v)) eqn:Ht; [|done].
      injection HN as ->. specialize (Hmaxb N eq_refl).
      cbn [truthy] in Ht. apply negb_true_iff, Z.eqb_neq in Ht. lia.
  - rewrite lookup_insert_ne by done. apply Hinv.
Qed.

Lemma patch_consistent u cid b now f st :
  counter_safe (Update u cid b now f) →
  consistent st → consistent (snd (patch_challenge u cid b now f st)).
Proof.
  intros [Hpart Hmaxb] Hinv.
  destruct (decide (status (fst (patch_challenge u cid b now f st)) = 200))
    as [Hs|Hs]; [|by rewrite patch_not_200].
  apply patch_200 in Hs as (usr & existing & -> & _ & Hc & _ & _ & ->).
  intros cid' d'. cbn [snd challenges userChallenges].
  destruct (decide (cid' = ObjectId_hex cid)) as [->|Hne].
  - rewrite lookup_insert_eq. intros [= <-].
    rewrite !lookup_union_r by (by rewrite update_data_lookup).
    by apply Hinv.
  - rewrite lookup_insert_ne by done. apply Hinv.
Qed.

Lemma delete_consistent u cid f st :
  consistent st → consistent (snd (delete_challenge u cid f st)).
Proof.
  intros Hinv. destruct (delete_state u cid f st) as [->| ->]; [done|].
  intros cid' d'. unfold delete_one. cbn [challenges userChallenges].
  intros Hd'. apply lookup_delete_Some in Hd' as [_ Hd']. by apply Hinv.
Qed.

Lemma reachable_consistent st :
  reachable counter_safe st → consistent st.
Proof.
  induction 1 as [|st r _ IH Hsafe Hfresh].
  - intros cid d. unfold empty_db. cbn [challenges]. by rewrite lookup_empty.
  - destruct r; cbn [handle].
    + by apply create_consistent.
    + by apply patch_consistent.
    + by apply delete_consistent.
    + by apply join_consistent.
Qed.

(** C2, amended.  From the empty database, after any sequence of join
    requests, deletes, creates that supply no numeric [participants] and
    whose [maxParticipants], when it is a number, is a non-negative integer,
    and updates that provide neither [participants] nor [maxParticipants],
    every challenge whose [maxParticipants] is an integer N has a
    [participants] that does not exceed N and equals the number of
    membership rows of that challenge.  The bound rests on integer
    arithmetic (a counter below N is at most N - 1): it is a statement about
    integer capacities only. *)
Theorem counter_never_exceeds_capacity (st : db) :
  reachable counter_safe st → capacity_respected st.
Proof.
  intros Hreach cid d N Hd HN.
  destruct (reachable_consistent st Hreach cid d Hd) as (p & Hp & Hcount & Hmax).
  exists p. destruct (Hmax N HN). done.
Qed.

(** C10.  A create request whose [maxParticipants] is 0, or falsy in any
    other way, and that is answered with 201, stores [maxParticipants: null];
    and a join request on a challenge whose stored [maxParticipants] is falsy
    is never answered with "Challenge is full", as long as the store itself
    raises no error that carries the code 400. *)
Theorem falsy_capacity_is_no_capacity :
  (∀ u b now newId f st,
     truthy (b !! "maxParticipants") = false →
     status (fst (post_challenges u b now newId f st)) = 201 →
     ∃ d, body (fst (post_challenges u b now newId f st)) = Challenge newId d
          ∧ challenges (snd (post_challenges u b now newId f st)) !! newId = Some d
          ∧ d !! "maxParticipants" = Some VNull)
  ∧ (∀ u cid now newId f st c,
       challenges st !! ObjectId_hex cid = Some c →
       truthy (c !! "maxParticipants") = false →
       (∀ call e, f call = Some e → code e ≠ Some 400) →
       fst (post_challenges_join u cid now newId f st) ≠ challenge_is_full).
Proof.
  split.
  - intros u b now newId f st Hfalsy Hs.
    apply create_201 in Hs as (usr & s & e & d & -> & _ & _ & Hd & _ & ->).
    exists d. cbn [fst snd body challenges]. split; [done|].
    split; [apply lookup_insert_eq|].
    rewrite (new_challenge_maxParticipants _ _ _ _ _ _ Hd).
    unfold or_else. rewrite Hfalsy. by destruct (b !! "maxParticipants").
  - intros u cid now newId f st c Hc Hfalsy Hstore.
    unfold post_challenges_join, challenge_is_full.
    destruct u as [usr|]; [|done].
    destruct (user_id usr) as [userId|]; [|done].
    destruct (negb _ || negb _); [done|].
    destruct (negb (ObjectId_isValid cid)); [done|].
    unfold withTransaction.
    destruct (join_body userId cid now newId f st) as [e|[uc st']] eqn:Hbody.
    + cbn [fst]. intros Hfull.
      apply (join_catch_not_400 e); [|by rewrite Hfull].
      destruct (join_body_throws _ _ _ _ _ _ _ _ Hbody Hc Hfalsy) as [He|[call Hcall]];
        [done|by eapply Hstore].
    + destruct (f Commit) as [e|] eqn:Hcommit; [|done].
      cbn [fst]. intros Hfull.
      apply (join_catch_not_400 e); [by eapply Hstore|by rewrite Hfull].
Qed.







End Lifecycle.

(** C2 as stated fails: one create request that carries [participants: 5]
    and [maxParticipants: 3] leaves a challenge whose counter exceeds its
    capacity and counts rows that do not exist. *)
Lemma create_installs_counter :
  @reachable node (fun _ => True) db_oversold ∧ ¬ capacity_respected db_oversold.
Proof.
  split.
  - apply (@reachable_step node); [constructor | done |].
    split; [apply lookup_empty | reflexivity].
  - intros Hcap.
    assert (∃ d, challenges db_oversold !! cleanup_id = Some d
                 ∧ d !! "maxParticipants" = Some (VNum 3)
                 ∧ d !! "participants" = Some (VNum 5)) as (d & Hd & Hmax & Hp).
    { eexists. split; [reflexivity|]. split; reflexivity. }
    destruct (Hcap cleanup_id d 3 Hd Hmax) as (p & Hp' & Hle & _).
    rewrite Hp in Hp'. injection Hp' as <-. lia.
Qed.

Lemma counter_never_exceeds_capacity_witness : capacity_respected db_joined.
Proof.
  apply (@counter_never_exceeds_capacity node).
  change db_joined with
    (snd (@handle node
            (Join (Some bob) cleanup_id 2000 "0123456789abcdef01234568" no_faults)
            (snd (@handle node
                    (Create (Some alice) (<["maxParticipants" := VNum 1]> cleanup_body)
                       1000 cleanup_id no_faults)
                    empty_db)))).
  apply (@reachable_step node); [|exact I|exact I].
  apply (@reachable_step node); [constructor| |].
  - split.
    + intros n. vm_compute. discriminate.
    + intros N. vm_compute. intros [= <-]. discriminate.
  - split; [apply lookup_empty | reflexivity].
Defined.

(** C3 as stated fails: Bob is a member of the challenge, which is full;
    his second join is answered "Challenge is full", not "already joined". *)
Lemma full_reported_before_duplicate :
  (∃ r, r ∈ userChallenges db_joined
        ∧ uc_user r = "bbbbbbbbbbbbbbbbbbbbbbbb" ∧ uc_challenge r = cleanup_id)
  ∧ @post_challenges_join node (Some bob) cleanup_id 3000
      "0123456789abcdef01234569" no_faults db_joined
    = (reply 400 "Challenge is full", db_joined).
Proof.
  split.
  - eexists. split; [vm_compute; apply list_elem_of_here|]. split; reflexivity.
  - vm_compute. reflexivity.
Qed.

Lemma join_twice_witness :
  @post_challenges_join node (Some bob) cleanup_id 3000
    "0123456789abcdef01234569" no_faults db_open_joined
  = (reply 409 "User already joined this challenge", db_open_joined).
Proof.
  assert (∃ c, challenges db_open_joined !! cleanup_id = Some c
               ∧ c !! "maxParticipants" = Some VNull) as (c & Hc & Hmax).
  { eexists. split; reflexivity. }
  destruct (@join_twice node bob "bbbbbbbbbbbbbbbbbbbbbbbb" cleanup_id 3000
              "0123456789abcdef01234569" no_faults db_open_joined
              (@ucDoc node "bbbbbbbbbbbbbbbbbbbbbbbb" cleanup_id 2000
                 "0123456789abcdef01234568"))
    as (_ & Hst & Hres).
  - reflexivity.
  - vm_compute. apply list_elem_of_here.
  - vm_compute; reflexivity.
  - vm_compute; reflexivity.
  - apply injective_projections; cbn [fst snd]; [|exact Hst].
    apply (Hres c).
    + discriminate.
    + vm_compute; reflexivity.
    + vm_compute; reflexivity.
    + reflexivity.
    + reflexivity.
    + exact Hc.
    + rewrite Hmax. reflexivity.
Defined.

Lemma join_full_challenge_witness :
  @post_challenges_join node (Some alice) cleanup_id 3000
    "0123456789abcdef01234569" no_faults db_joined
  = (reply 400 "Challenge is full", db_joined).
Proof.
  assert (∃ c, challenges db_joined !! cleanup_id = Some c
               ∧ c !! "maxParticipants" = Some (VNum 1)
               ∧ c !! "participants" = Some (VNum 1)) as (c & Hc & Hmax & Hp).
  { eexists. split; [reflexivity|]. split; reflexivity. }
  apply (@join_full_challenge node alice "aaaaaaaaaaaaaaaaaaaaaaaa" cleanup_id 3000
           "0123456789abcdef01234569" no_faults db_joined c 1 1).
  - reflexivity.
  - discriminate.
  - vm_compute; reflexivity.
  - vm_compute; reflexivity.
  - reflexivity.
  - exact Hc.
  - exact Hmax.
  - lia.
  - exact Hp.
  - lia.
Defined.

Lemma falsy_capacity_is_no_capacity_witness :
  (∃ d, challenges db_open !! cleanup_id = Some d
        ∧ d !! "maxParticipants" = Some VNull)
  ∧ fst (@post_challenges_join node (Some bob) cleanup_id 2000
           "0123456789abcdef01234568" no_faults db_open) ≠ challenge_is_full.
Proof.
  split.
  - destruct (proj1 (@falsy_capacity_is_no_capacity node) (Some alice)
                (<["maxParticipants" := VNum 0]> cleanup_body) 1000 cleanup_id
                no_faults empty_db) as (d & _ & Hd & Hmax).
    + vm_compute; reflexivity.
    + vm_compute; reflexivity.
    + exists d. split; [exact Hd | exact Hmax].
  - assert (∃ c, challenges db_open !! cleanup_id = Some c
                 ∧ c !! "maxParticipants" = Some VNull) as (c & Hc & Hmax).
    { eexists. split; reflexivity. }
    apply (proj2 (@falsy_capacity_is_no_capacity node) (Some bob) cleanup_id 2000
             "0123456789abcdef01234568" no_faults db_open c).
    + exact Hc.
    + rewrite Hmax. reflexivity.
    + intros call e. discriminate.
Defined.




(** Why the amended C9 asks that the slug be free: the owner's update to the
    slug of another challenge is refused by the unique index, answered with
    500, and writes nothing. *)
Lemma update_refused_on_taken_slug :
  is_Some (challenges db_two !! "0123456789abcdef01234560")
  ∧ status (fst (@patch_challenge node (Some alice) cleanup_id
                   {[ "slug" := VStr "river-cleanup" ]} 5000 no_faults db_two)) = 500
  ∧ snd (@patch_challenge node (Some alice) cleanup_id
           {[ "slug" := VStr "river-cleanup" ]} 5000 no_faults db_two) = db_two.
Proof.
  split; [eexists; reflexivity|]. split; [vm_compute; reflexivity|].
  apply (@patch_not_200 node). vm_compute. discriminate.
Qed.


Section Browse.
Context `{Runtime}.

Lemma build_participants_range q f :
  buildChallengeFilters q = Some f →
  participants_range f
  = if present (q_participantsMin q) || present (q_participantsMax q)
    then Some {| gte := if present (q_participantsMin q)
                        then parseInt <$> q_participantsMin q else None;
                 lte := if present (q_participantsMax q)
                        then parseInt <$> q_participantsMax q else None |}
    else None.
Proof.
  unfold buildChallengeFilters.
  destruct (q_search q) as [s|]; [|by intros [= <-]].
  destruct (present (Some s)); [|by intros [= <-]].
  destruct (RegExp s); [|done]. by intros [= <-].
Qed.

Lemma field_any_never (p : value → bool) v :
  (∀ x, p x = false) → field_any p v = false.
Proof.
  intros Hp. destruct v as [[]|]; cbn [field_any]; rewrite ?Hp; try done.
  rewrite orb_false_r. induction items as [|x l IH]; [done|].
  cbn [existsb]. by rewrite Hp, IH.
Qed.

Lemma present_Some s : s ≠ "" → present (Some s) = true.
Proof. intros Hs. unfold present. by apply negb_true_iff, String.eqb_neq. Qed.

(** C7 at its failing inputs.  When [participantsMin] or [participantsMax]
    is a non-empty string in which [parseInt] finds no number, the filter is
    built, holds a [NaN] bound on [participants], and matches no challenge at
    all: the parameter is not ignored. *)
Theorem unparsable_bound_matches_nothing (q : query) (s : string)
    (f : filters) (d : doc) :
  q_participantsMin q = Some s ∨ q_participantsMax q = Some s →
  s ≠ "" → parseInt s = NaN →
  buildChallengeFilters q = Some f →
  (∃ r, participants_range f = Some r ∧ (gte r = Some NaN ∨ lte r = Some NaN))
  ∧ matches f d = false.
Proof.
  intros Hq Hs Hnan Hf.
  apply build_participants_range in Hf.
  assert (∃ r, participants_range f = Some r ∧ (gte r = Some NaN ∨ lte r = Some NaN))
    as (r & Hr & Hbound).
  { destruct Hq as [Hq|Hq]; rewrite Hq, (present_Some s Hs) in Hf;
      [cbn [orb] in Hf | rewrite orb_true_r in Hf];
      eexists; (split; [exact Hf|]); cbn [gte lte fmap option_fmap option_map];
      rewrite Hnan; auto. }
  split; [by exists r|].
  unfold matches. rewrite Hr.
  assert (in_range num_gte num_lte (Some r) (d !! "participants") = false) as ->.
  { unfold in_range. destruct Hbound as [-> | ->].
    - by rewrite field_any_never.
    - rewrite (field_any_never (num_lte NaN)) by done. apply andb_false_r. }
  by rewrite !andb_false_r.
Qed.

(** *** Literal search strings *)

Lemma atoms_of_literal cs :
  forallb (fun c => negb (is_meta c)) cs = true →
  atoms_of cs = Some (map AChar cs).
Proof.
  induction cs as [|c cs IH]; [done|].
  cbn [forallb atoms_of map]. intros Hc.
  apply andb_true_iff in Hc as [Hc Hcs]. rewrite (IH Hcs).
  apply negb_true_iff in Hc.
  destruct (Ascii.eqb c ".") eqn:Hdot.
  - apply Ascii.eqb_eq in Hdot as ->. discriminate.
  - by rewrite Hc.
Qed.

Lemma match_here_literal cs t :
  match_here (map AChar cs) t = true
  ↔ ∃ post, map fold_case t = (map fold_case cs ++ post)%list.
Proof.
  revert t. induction cs as [|c cs IH]; intros t.
  - split; [intros _; by exists (map fold_case t) | done].
  - destruct t as [|x t]; cbn [map match_here atom_matches].
    + split; [done | intros [post Hpost]; done].
    + rewrite andb_true_iff, IH, Ascii.eqb_eq. split.
      * intros [-> [post ->]]. by exists post.
      * intros [post [= -> Hpost]]. split; [done | by exists post].
Qed.

Lemma search_in_literal cs t :
  search_in (map AChar cs) t = true
  ↔ ∃ pre post, map fold_case t = (pre ++ map fold_case cs ++ post)%list.
Proof.
  induction t as [|x t IH]; cbn [search_in].
  - rewrite orb_false_r, match_here_literal. split.
    + intros [post Hpost]. by exists [], post.
    + intros (pre & post & Hpost). destruct pre as [|y pre]; [by exists post|done].
  - rewrite orb_true_iff, match_here_literal, IH. split.
    + intros [[post Hpost]|(pre & post & Hpost)].
      * by exists [], post.
      * exists (fold_case x :: pre), post. cbn [map app]. by rewrite Hpost.
    + intros (pre & post & Hpost). destruct pre as [|y pre].
      * left. by exists post.
      * right. exists pre, post. by injection Hpost.
Qed.

Lemma RegExp_literal S :
  literal S = true →
  RegExp S = Some (Pattern (map AChar (list_ascii_of_string S))).
Proof. intros HS. unfold RegExp. by rewrite atoms_of_literal. Qed.

Lemma regexp_test_literal S t :
  regexp_test (Pattern (map AChar (list_ascii_of_string S))) t = true ↔ occurs S t.
Proof. unfold regexp_test, occurs, folded. apply search_in_literal. Qed.

Lemma regex_field_tags S (tags : list string) :
  regex_field (Pattern (map AChar (list_ascii_of_string S)))
    (Some (VArr (VStr <$> tags))) = true
  ↔ ∃ t, t ∈ tags ∧ occurs S t.
Proof.
  unfold regex_field. cbn [field_any]. rewrite orb_false_r.
  induction tags as [|t tags IH]; cbn [fmap list_fmap existsb].
  - split; [done | intros (t & Ht & _); by apply elem_of_nil in Ht].
  - rewrite orb_true_iff. fold (fmap (M := list) VStr tags). rewrite IH.
    rewrite regexp_test_literal. split.
    + intros [Ht|(t' & Ht' & Ho)]; [exists t | exists t']; split; try done.
      * apply list_elem_of_here.
      * by apply list_elem_of_further.
    + intros (t' & Ht' & Ho). apply elem_of_cons in Ht' as [->|Ht']; eauto.
Qed.

(** C8, amended.  For every non-empty search string S without
    regular-expression metacharacters and every challenge whose [title] and
    [description] are strings and whose [tags] is a sequence of strings, the
    filter's search criterion holds if and only if S occurs, regardless of
    the case of ASCII letters, as a substring of the title, or of the
    description, or of some element of the tags. *)
Theorem search_is_substring_for_literals (q : query) (S : string) :
  q_search q = Some S → S ≠ "" → literal S = true →
  ∃ f re,
    buildChallengeFilters q = Some f ∧ or_regex f = Some re ∧
    ∀ (d : doc) title description tags,
      d !! "title" = Some (VStr title) →
      d !! "description" = Some (VStr description) →
      d !! "tags" = Some (VArr (VStr <$> tags)) →
      (search_criterion re d = true
       ↔ occurs S title ∨ occurs S description ∨ ∃ t, t ∈ tags ∧ occurs S t).
Proof.
  intros Hq HS Hlit. unfold buildChallengeFilters.
  rewrite Hq, (present_Some S HS), (RegExp_literal S Hlit).
  eexists. eexists. split; [reflexivity|]. cbn [or_regex]. split; [reflexivity|].
  intros d title description tags Ht Hd Htags.
  unfold search_criterion. rewrite Ht, Hd, Htags.
  rewrite !orb_true_iff, regex_field_tags.
  unfold regex_field. cbn [field_any]. rewrite !regexp_test_literal. tauto.
Qed.

End Browse.

(** C6 at its failing inputs.  [limit=0] and [limit=-5] come out of the
    handler as 0 and -5, below the lower bound of 1, and the listing answered
    for [limit=0] carries that limit. *)
Theorem limit_has_no_lower_bound :
  effective_limit (with_limit "0") = Num 0
  ∧ effective_limit (with_limit "-5") = Num (-5)
  ∧ ∃ total items,
      @get_challenges node (with_limit "0") no_faults db_joined
      = {| status := 200; body := Listing (Num 1) (Num 0) total items |}.
Proof.
  split; [reflexivity|]. split; [reflexivity|].
  eexists. eexists. vm_compute. reflexivity.
Qed.

Lemma unparsable_bound_matches_nothing_witness :
  (∃ f, @buildChallengeFilters node no_query = Some f
        ∧ @matches node f (<["participants" := VNum 5]> abc_challenge) = true)
  ∧ ∃ f, @buildChallengeFilters node (with_participantsMax "abc") = Some f
         ∧ @matches node f (<["participants" := VNum 5]> abc_challenge) = false.
Proof.
  split.
  - eexists. split; reflexivity.
  - eexists. split; [reflexivity|].
    apply (@unparsable_bound_matches_nothing node (with_participantsMax "abc") "abc").
    + right. reflexivity.
    + discriminate.
    + reflexivity.
    + reflexivity.
Defined.

(** C8 as stated fails: the search string "a.c" is read as a pattern whose
    dot stands for any character, so the criterion holds for the challenge
    titled "abc", in which "a.c" does not occur. *)
Lemma search_is_a_pattern :
  ∃ f re,
    @buildChallengeFilters node (with_search "a.c") = Some f
    ∧ or_regex f = Some re
    ∧ @search_criterion node re abc_challenge = true
    ∧ ¬ (occurs "a.c" "abc" ∨ occurs "a.c" "x"
         ∨ ∃ t, t ∈ ([] : list string) ∧ occurs "a.c" t).
Proof.
  eexists. eexists. split; [reflexivity|]. split; [reflexivity|].
  split; [reflexivity|].
  intros [(pre & post & Ho)|[(pre & post & Ho)|(t & Ht & _)]].
  - vm_compute in Ho. destruct pre as [|? [|? [|? [|? pre]]]]; discriminate.
  - vm_compute in Ho. destruct pre as [|? [|? pre]]; discriminate.
  - by apply elem_of_nil in Ht.
Qed.

Lemma search_is_substring_for_literals_witness :
  ∃ f re,
    @buildChallengeFilters node (with_search "BC") = Some f
    ∧ or_regex f = Some re
    ∧ @search_criterion node re abc_challenge = true.
Proof.
  destruct (@search_is_substring_for_literals node (with_search "BC") "BC")
    as (f & re & Hf & Hre & Hiff); [reflexivity | discriminate | reflexivity |].
  exists f, re. split; [exact Hf|]. split; [exact Hre|].
  apply (Hiff abc_challenge "abc" "x" []); [reflexivity..|].
  left. exists ["A"%char], []. reflexivity.
Defined.
